(** * hotline/database/models.py: the persisted schema of the hotline service

    The module declares six peewee models (Number, Hotline, HotlineMember,
    HotlineAdmin, AuditLog, BlockList), the shared database handle [db]
    (a [peewee.Proxy]) and one custom column class, [SerializableField].

    The development has three layers:
    - the column and model declarations, transcribed from the module;
    - the part of peewee and of the relational backend that gives those
      declarations a meaning: the proxy, column conversions, [Model.create]
      with defaults and constraints, and equality queries through indexes;
    - the properties of the module on top of them. *)

From Stdlib Require Import List String ZArith Bool Lia Permutation Sorted.
Import ListNotations.
Local Open Scope string_scope.
Local Open Scope list_scope.
Local Open Scope Z_scope.

(** ** Values and exceptions *)

(** The Python values that reach a column: [None], [str], [int], [bool] and
    [datetime.datetime] (an instant, in microseconds since the epoch). *)
Inductive value : Type :=
| VNone
| VStr (s : string)
| VInt (n : Z)
| VBool (b : bool)
| VDatetime (t : Z).

Definition value_eqb (x y : value) : bool :=
  match x, y with
  | VNone, VNone => true
  | VStr a, VStr b => String.eqb a b
  | VInt a, VInt b => Z.eqb a b
  | VBool a, VBool b => Bool.eqb a b
  | VDatetime a, VDatetime b => Z.eqb a b
  | _, _ => false
  end.

Fixpoint list_eqb {A : Type} (eqb : A -> A -> bool) (l1 l2 : list A) : bool :=
  match l1, l2 with
  | [], [] => true
  | x :: l1', y :: l2' => eqb x y && list_eqb eqb l1' l2'
  | _, _ => false
  end.

(** Equality of index keys (tuples of column values) and of column tuples. *)
Definition key_eqb : list value -> list value -> bool := list_eqb value_eqb.
Definition names_eqb : list string -> list string -> bool := list_eqb String.eqb.

Definition is_none (v : value) : bool :=
  match v with VNone => true | _ => false end.

(** [type(v).__name__], as Python prints it in an [AttributeError]. *)
Definition type_name (v : value) : string :=
  match v with
  | VNone => "NoneType"
  | VStr _ => "str"
  | VInt _ => "int"
  | VBool _ => "bool"
  | VDatetime _ => "datetime.datetime"
  end.

(** What a backend reports in a [peewee.IntegrityError]. *)
Inductive violation : Type :=
| NotNull (model column : string)
| Unique (model : string) (columns : list string)
| ForeignKey (model column : string).

Inductive exn : Type :=
| AttributeError (msg : string)
| IntegrityError (v : violation)
| UserException (msg : string).

Definition result (A : Type) : Type := (exn + A)%type.

Definition Ok {A : Type} (a : A) : result A := inr a.
Definition Err {A : Type} (e : exn) : result A := inl e.

Definition rbind {A B : Type} (r : result A) (k : A -> result B) : result B :=
  match r with
  | inl e => inl e
  | inr a => k a
  end.

Definition no_attribute (v : value) (attr : string) : string :=
  ("'" ++ type_name v ++ "' object has no attribute '" ++ attr ++ "'")%string.

(** ** Column declarations *)

(** The peewee column classes the module uses, and the one it defines.
    A [ForeignKeyField] names the model it points to; a [SerializableField]
    names the class it was constructed with. *)
Inductive field_class : Type :=
| TextField
| CharField
| IntegerField
| BooleanField
| DateTimeField
| ForeignKeyField (rel_model : string)
| SerializableField (cls : string).

Inductive callable : Type :=
| utcnow_callable.

Inductive default_spec : Type :=
| Const (v : value)
| Call (f : callable).

Record Field : Type := mkField {
  fclass : field_class;
  null : bool;
  index : bool;
  unique : bool;
  default : option default_spec;
  backref : option string
}.

(** Keyword arguments of a column constructor. *)
Inductive kwarg : Type :=
| Null (b : bool)
| Index (b : bool)
| Unique_ (b : bool)
| Default (d : default_spec)
| Backref (s : string).

(** [Field.__init__]: [null=False, index=False, unique=False, default=None];
    [ForeignKeyField.__init__] sets [index=True] unless told otherwise. *)
Definition class_defaults (c : field_class) : Field :=
  {| fclass := c;
     null := false;
     index := match c with ForeignKeyField _ => true | _ => false end;
     unique := false;
     default := None;
     backref := None |}.

Definition apply_kwarg (f : Field) (k : kwarg) : Field :=
  match k with
  | Null b => mkField (fclass f) b (index f) (unique f) (default f) (backref f)
  | Index b => mkField (fclass f) (null f) b (unique f) (default f) (backref f)
  | Unique_ b => mkField (fclass f) (null f) (index f) b (default f) (backref f)
  | Default d => mkField (fclass f) (null f) (index f) (unique f) (Some d) (backref f)
  | Backref s => mkField (fclass f) (null f) (index f) (unique f) (default f) (Some s)
  end.

Definition field (c : field_class) (kwargs : list kwarg) : Field :=
  fold_left apply_kwarg kwargs (class_defaults c).

Record ModelIndex : Type := mkIndex {
  idx_fields : list string;
  idx_unique : bool
}.

Definition index_eqb (x y : ModelIndex) : bool :=
  names_eqb (idx_fields x) (idx_fields y) && Bool.eqb (idx_unique x) (idx_unique y).

(** A model class: its name, its columns in declaration order and the
    indexes added with [add_index].  Every model also has the implicit
    auto-incrementing primary key [id], kept apart from the declared columns
    (see [row]). *)
Record Model : Type := mkModel {
  name : string;
  fields : list (string * Field);
  indexes : list ModelIndex
}.

Fixpoint assoc {A : Type} (k : string) (l : list (string * A)) : option A :=
  match l with
  | [] => None
  | (k', a) :: l' => if String.eqb k k' then Some a else assoc k l'
  end.

(** The column [n] of model [m], when it declares one. *)
Definition column (m : Model) (n : string) : option Field := assoc n (fields m).

(** [Model.add_index]: appends a non-unique index on the given columns. *)
Definition add_index (m : Model) (cols : list string) : Model :=
  {| name := name m;
     fields := fields m;
     indexes := indexes m ++ [mkIndex cols false] |}.

(** [Metadata.fields_to_index]: one index per column declared [index=True]
    or [unique=True], then the model-level indexes. *)
Definition field_indexes (fs : list (string * Field)) : list ModelIndex :=
  flat_map (fun nf : string * Field =>
              let (n, f) := nf in
              if index f || unique f then [mkIndex [n] (unique f)] else [])
           fs.

Definition fields_to_index (m : Model) : list ModelIndex :=
  field_indexes (fields m) ++ indexes m.

(** ** Column conversions

    Every peewee column converts a Python value to what is stored
    ([db_value]) and back ([python_value]).  The base class [Field] lets
    [None] through and otherwise calls the class's [adapt]; the text columns
    adapt with [str]; [SerializableField] overrides both conversions. *)

Section Conversions.

(** Instances of user classes (the ones with a [serialize] method). *)
Variable T : Type.

Inductive pyval : Type :=
| Prim (v : value)
| Obj (o : T).

(** A class usable with [SerializableField]: the instance method
    [serialize()] and the class-level [deserialize(text)].  Both are
    arbitrary Python code: they may return anything or raise. *)
Record PyClass : Type := {
  serialize : T -> result pyval;
  deserialize : pyval -> result pyval
}.

(** The classes in scope, by name. *)
Variable classes : string -> PyClass.
(** The class of an instance. *)
Variable class_of : T -> string.
(** Python's [str()] on values that are not [str] already. *)
Variable text_type : pyval -> string.
(** [adapt] of the peewee columns that are not text ([int()], [bool()],
    date parsing, key extraction): library code this module leaves alone. *)
Variable builtin_adapt : field_class -> pyval -> result pyval.

(** [value.serialize()]: attribute lookup on the value, then the call. *)
Definition call_serialize (v : pyval) : result pyval :=
  match v with
  | Obj o => serialize (classes (class_of o)) o
  | Prim p => Err (AttributeError (no_attribute p "serialize"))
  end.

(** [Field.db_value] and [Field.python_value]:
    [return value if value is None else self.adapt(value)]. *)
Definition Field_db_value (adapt : pyval -> result pyval) (v : pyval)
  : result pyval :=
  match v with
  | Prim VNone => Ok (Prim VNone)
  | _ => adapt v
  end.

Definition Field_python_value (adapt : pyval -> result pyval) (v : pyval)
  : result pyval :=
  match v with
  | Prim VNone => Ok (Prim VNone)
  | _ => adapt v
  end.

(** [_StringField.adapt]: a [str] is kept, anything else goes through
    [str()]. *)
Definition StringField_adapt (v : pyval) : result pyval :=
  match v with
  | Prim (VStr s) => Ok (Prim (VStr s))
  | _ => Ok (Prim (VStr (text_type v)))
  end.

(** [SerializableField.db_value(self, value)]:
    [return value.serialize()]. *)
Definition SerializableField_db_value (v : pyval) : result pyval :=
  call_serialize v.

(** [SerializableField.python_value(self, value)]:
    [return self._cls.deserialize(value)]. *)
Definition SerializableField_python_value (_cls : string) (v : pyval)
  : result pyval :=
  deserialize (classes _cls) v.

Definition adapt (c : field_class) : pyval -> result pyval :=
  match c with
  | TextField | CharField | SerializableField _ => StringField_adapt
  | _ => builtin_adapt c
  end.

(** Method resolution: the conversion a column of class [c] runs. *)
Definition db_value (c : field_class) (v : pyval) : result pyval :=
  match c with
  | SerializableField _ => SerializableField_db_value v
  | _ => Field_db_value (adapt c) v
  end.

Definition python_value (c : field_class) (v : pyval) : result pyval :=
  match c with
  | SerializableField _cls => SerializableField_python_value _cls v
  | _ => Field_python_value (adapt c) v
  end.




(** Writing a value to a column and loading it again. *)
Definition store_then_load (c : field_class) (v : pyval) : result pyval :=
  rbind (db_value c v) (python_value c).

End Conversions.

Arguments Prim {T} v.
Arguments Obj {T} o.
Arguments serialize {T} p o.
Arguments deserialize {T} p v.

(** ** The backend: rows, tables, indexes *)

(** A stored row: the auto-assigned primary key [id] and one value per
    declared column, in declaration order. *)
Record row : Type := mkRow {
  rid : Z;
  cols : list (string * value)
}.

(** The value of a column in a row or in an instance's [__data__]; a column
    that was never set reads as [None] (SQL [NULL]). *)
Definition get (k : string) (d : list (string * value)) : value :=
  match assoc k d with
  | Some v => v
  | None => VNone
  end.

Fixpoint set (k : string) (v : value) (d : list (string * value))
  : list (string * value) :=
  match d with
  | [] => [(k, v)]
  | (k', v') :: d' =>
      if String.eqb k k' then (k, v) :: d' else (k', v') :: set k v d'
  end.

Definition key_of (cs : list string) (d : list (string * value)) : list value :=
  map (fun c => get c d) cs.

(** An index maps a key to the ids of the rows that carry it, oldest first. *)
Definition index_data : Type := list (list value * list Z).

Fixpoint idx_lookup (k : list value) (ix : index_data) : list Z :=
  match ix with
  | [] => []
  | (k', ids) :: ix' => if key_eqb k k' then ids else idx_lookup k ix'
  end.

Fixpoint idx_add (k : list value) (i : Z) (ix : index_data) : index_data :=
  match ix with
  | [] => [(k, [i])]
  | (k', ids) :: ix' =>
      if key_eqb k k' then (k', ids ++ [i]) :: ix'
      else (k', ids) :: idx_add k i ix'
  end.

Record table : Type := mkTable {
  rows : list row;
  indices : list (ModelIndex * index_data)
}.

Definition empty_table : table := {| rows := []; indices := [] |}.

Fixpoint index_of (t : list (ModelIndex * index_data)) (ix : ModelIndex)
  : index_data :=
  match t with
  | [] => []
  | (ix', d) :: t' => if index_eqb ix ix' then d else index_of t' ix
  end.

(** The next primary key: one more than the largest in use. *)
Definition fresh_id (rs : list row) : Z :=
  1 + fold_right (fun r acc => Z.max (rid r) acc) 0 rs.

(** Appending a row to a table keeps every index of the model up to date. *)
Definition table_insert (m : Model) (r : row) (t : table) : table :=
  {| rows := rows t ++ [r];
     indices :=
       map (fun ix =>
              (ix, idx_add (key_of (idx_fields ix) (cols r)) (rid r)
                           (index_of (indices t) ix)))
           (fields_to_index m) |}.

Definition fetch (rs : list row) (i : Z) : list row :=
  match find (fun r => rid r =? i) rs with
  | Some r => [r]
  | None => []
  end.

Definition matches (cs : list string) (k : list value) (r : row) : bool :=
  key_eqb (key_of cs (cols r)) k.

(** Rows whose columns [cs] equal [k]: through the index on exactly those
    columns when the model declares one, by a scan of the table otherwise. *)
Definition table_select (m : Model) (t : table) (cs : list string)
  (k : list value) : list row :=
  match find (fun ix => names_eqb (idx_fields ix) cs) (fields_to_index m) with
  | Some ix => flat_map (fetch (rows t)) (idx_lookup k (index_of (indices t) ix))
  | None => filter (matches cs k) (rows t)
  end.

(** A database: its tables by model name, and whether it enforces foreign
    keys (backends differ; SQLite does so only on request). *)
Record database : Type := mkDatabase {
  foreign_keys : bool;
  tables : string -> table
}.

Definition empty_database (fk : bool) : database :=
  {| foreign_keys := fk; tables := fun _ => empty_table |}.

Definition set_table (d : database) (n : string) (t : table) : database :=
  {| foreign_keys := foreign_keys d;
     tables := fun n' => if String.eqb n' n then t else tables d n' |}.

(** ** Constraints checked by an INSERT *)

(** The first declared column that is [NOT NULL] and has no value. *)
Fixpoint not_null_violation (mname : string) (fs : list (string * Field))
  (d : list (string * value)) : option violation :=
  match fs with
  | [] => None
  | (n, f) :: fs' =>
      if negb (null f) && is_none (get n d) then Some (NotNull mname n)
      else not_null_violation mname fs' d
  end.

(** The first unique index whose key, free of [NULL]s, is already taken. *)
Fixpoint unique_violation (mname : string) (ixs : list ModelIndex)
  (rs : list row) (d : list (string * value)) : option violation :=
  match ixs with
  | [] => None
  | ix :: ixs' =>
      let k := key_of (idx_fields ix) d in
      if idx_unique ix && forallb (fun v => negb (is_none v)) k
         && existsb (matches (idx_fields ix) k) rs
      then Some (Unique mname (idx_fields ix))
      else unique_violation mname ixs' rs d
  end.

Definition refers_to (rs : list row) (v : value) : bool :=
  existsb (fun r => value_eqb (VInt (rid r)) v) rs.

(** The first foreign key that is set and points at no row. *)
Fixpoint foreign_key_violation (mname : string) (fs : list (string * Field))
  (tbl : string -> table) (d : list (string * value)) : option violation :=
  match fs with
  | [] => None
  | (n, f) :: fs' =>
      match fclass f with
      | ForeignKeyField rel =>
          if negb (is_none (get n d)) && negb (refers_to (rows (tbl rel)) (get n d))
          then Some (ForeignKey mname n)
          else foreign_key_violation mname fs' tbl d
      | _ => foreign_key_violation mname fs' tbl d
      end
  end.

(** The row an INSERT stores for the instance data [d], or the constraint it
    breaks: NOT NULL first, then UNIQUE, then (when enforced) FOREIGN KEY. *)
Definition check_insert (m : Model) (db : database) (d : list (string * value))
  : violation + row :=
  let t := tables db (name m) in
  let cs := map (fun nf : string * Field => (fst nf, get (fst nf) d)) (fields m) in
  match not_null_violation (name m) (fields m) cs with
  | Some v => inl v
  | None =>
      match unique_violation (name m) (fields_to_index m) (rows t) cs with
      | Some v => inl v
      | None =>
          match (if foreign_keys db
                 then foreign_key_violation (name m) (fields m) (tables db) cs
                 else None) with
          | Some v => inl v
          | None => inr {| rid := fresh_id (rows t); cols := cs |}
          end
      end
  end.

(** ** The process: clock, shared handle and databases *)

(** [peewee.Proxy]: a placeholder that forwards to [obj] once one is set.
    The bound object is a database, named here by a number. *)
Record Proxy : Type := mkProxy {
  obj : option nat
}.

(** The state a run of the program threads along: the wall clock (its
    successive readings and how many were taken), the module-level handle
    [db], and the databases that exist, by number. *)
Record World : Type := mkWorld {
  clock : nat -> Z;
  ticks : nat;
  db : Proxy;
  stores : nat -> database
}.

(** Computations that read and update the world and may raise.  A raised
    exception keeps the effects that happened before it. *)
Definition M (A : Type) : Type := World -> result A * World.

Definition ret {A : Type} (a : A) : M A := fun w => (Ok a, w).

Definition raise {A : Type} (e : exn) : M A := fun w => (Err e, w).

Definition bind {A B : Type} (c : M A) (k : A -> M B) : M B :=
  fun w =>
    match c w with
    | (inl e, w') => (inl e, w')
    | (inr a, w') => k a w'
    end.

Notation "x <- c ;; k" := (bind c (fun x => k))
  (at level 61, c at next level, right associativity).

(** [datetime.datetime.utcnow()]: the next reading of the wall clock. *)
Definition utcnow : M value :=
  fun w =>
    (Ok (VDatetime (clock w (ticks w))),
     mkWorld (clock w) (S (ticks w)) (db w) (stores w)).

Definition call (f : callable) : M value :=
  match f with
  | utcnow_callable => utcnow
  end.

(** [db = peewee.Proxy()]: [Proxy.__init__] runs [self.initialize(None)]. *)
Definition Proxy_new : Proxy := {| obj := None |}.

(** [Proxy.initialize(obj)]: [self.obj = obj].  (It then runs the attached
    callbacks; the module attaches none.) *)
Definition initialize (o : option nat) : M unit :=
  fun w => (Ok tt, mkWorld (clock w) (ticks w) {| obj := o |} (stores w)).

(** [Proxy.__getattr__]: every use of the handle goes through it. *)
Definition Proxy_getattr : M nat :=
  fun w =>
    match obj (db w) with
    | None => raise (AttributeError "Cannot use uninitialized Proxy.") w
    | Some c => ret c w
    end.

Definition set_store (w : World) (c : nat) (d : database) : World :=
  mkWorld (clock w) (ticks w) (db w)
          (fun c' => if Nat.eqb c' c then d else stores w c').

(** ** Model operations *)

(** [Metadata.get_default_dict]: constant defaults are copied, callable
    defaults are called. *)
Fixpoint get_default_dict (fs : list (string * Field))
  : M (list (string * value)) :=
  match fs with
  | [] => ret []
  | (n, f) :: fs' =>
      match default f with
      | None => get_default_dict fs'
      | Some (Const v) =>
          d <- get_default_dict fs' ;; ret ((n, v) :: d)
      | Some (Call g) =>
          v <- call g ;; d <- get_default_dict fs' ;; ret ((n, v) :: d)
      end
  end.

(** The column a keyword of [Model(...)] sets: the column of that name, or
    the foreign key [n] for the keyword [n_id].  Other keywords become plain
    attributes of the instance and are never stored. *)
Fixpoint field_for (fs : list (string * Field)) (k : string) : option string :=
  match fs with
  | [] => None
  | (n, f) :: fs' =>
      if String.eqb k n then Some n
      else match fclass f with
           | ForeignKeyField _ =>
               if String.eqb k (n ++ "_id")%string then Some n
               else field_for fs' k
           | _ => field_for fs' k
           end
  end.

Definition setattr (m : Model) (d : list (string * value))
  (kv : string * value) : list (string * value) :=
  match field_for (fields m) (fst kv) with
  | Some n => set n (snd kv) d
  | None => d
  end.

(** [Model.__init__] on the keywords [query]: the defaults, then one
    [setattr] per keyword. *)
Definition Model_init (m : Model) (query : list (string * value))
  : M (list (string * value)) :=
  d <- get_default_dict (fields m) ;;
  ret (fold_left (setattr m) query d).

(** [inst.save(force_insert=True)]: an INSERT through the shared handle. *)
Definition save_force_insert (m : Model) (d : list (string * value)) : M row :=
  c <- Proxy_getattr ;;
  fun w =>
    match check_insert m (stores w c) d with
    | inl v => raise (IntegrityError v) w
    | inr r =>
        (Ok r,
         set_store w c
           (set_table (stores w c) (name m)
              (table_insert m r (tables (stores w c) (name m)))))
    end.

(** [Model.create] on the keywords [query]: build the instance, then
    [inst.save(force_insert=True)], and return it. *)
Definition create (m : Model) (query : list (string * value)) : M row :=
  d <- Model_init m query ;;
  save_force_insert m d.

(** The value the keywords [query] give the column [n], if any (the last
    one wins). *)
Fixpoint kw_value (m : Model) (n : string) (query : list (string * value))
  : option value :=
  match query with
  | [] => None
  | kv :: query' =>
      match kw_value m n query' with
      | Some v => Some v
      | None =>
          match field_for (fields m) (fst kv) with
          | Some n' => if String.eqb n' n then Some (snd kv) else None
          | None => None
          end
      end
  end.

(** [Model.select().where(c1 == k1, c2 == k2, ...)], as a list. *)
Definition select_where (m : Model) (cs : list string) (k : list value)
  : M (list row) :=
  c <- Proxy_getattr ;;
  fun w => (Ok (table_select m (tables (stores w c) (name m)) cs k), w).

(** Creating records one after the other; the ones that were stored, in
    order (a failed [create] raises, and the caller goes on). *)
Fixpoint create_all (qs : list (Model * list (string * value))) (w : World)
  : list (Model * row) * World :=
  match qs with
  | [] => ([], w)
  | (m, q) :: qs' =>
      match create m q w with
      | (inl _, w') => create_all qs' w'
      | (inr r, w') =>
          let (rs, w'') := create_all qs' w' in ((m, r) :: rs, w'')
      end
  end.

(** ** The module: models.py *)

Definition US : default_spec := Const (VStr "US").
Definition datetime_utcnow : default_spec := Call utcnow_callable.

Definition Number_class : Model :=
  {| name := "Number";
     fields :=
       [ ("number", field TextField []);
         ("country", field CharField [Default US]);
         ("features", field TextField [Index false]) ];
     indexes := [] |}.

Definition Number : Model := add_index Number_class ["number"].

Definition Hotline_class : Model :=
  {| name := "Hotline";
     fields :=
       [ ("name", field TextField []);
         ("slug", field CharField [Unique_ true]);
         ("primary_number", field TextField [Null true]);
         ("primary_number_id", field (ForeignKeyField "Number") [Null true]);
         ("country", field CharField [Default US]);
         ("voice_greeting", field TextField [Null true; Index false]) ];
     indexes := [] |}.

Definition Hotline : Model :=
  add_index (add_index Hotline_class ["slug"]) ["primary_number"].

Definition HotlineMember_class : Model :=
  {| name := "HotlineMember";
     fields :=
       [ ("hotline", field (ForeignKeyField "Hotline") [Backref "members"]);
         ("name", field TextField []);
         ("number", field TextField []);
         ("verified", field BooleanField []) ];
     indexes := [] |}.

Definition HotlineMember : Model :=
  add_index (add_index HotlineMember_class ["hotline"; "verified"])
            ["number"; "verified"].

Definition HotlineAdmin_class : Model :=
  {| name := "HotlineAdmin";
     fields :=
       [ ("hotline", field (ForeignKeyField "Hotline") [Backref "admins"]);
         ("user_id", field CharField [Null true]);
         ("user_name", field TextField [Null true]);
         ("user_email", field TextField []) ];
     indexes := [] |}.

Definition HotlineAdmin : Model := add_index HotlineAdmin_class ["user_id"].

Definition AuditLog_class : Model :=
  {| name := "AuditLog";
     fields :=
       [ ("timestamp", field DateTimeField [Default datetime_utcnow]);
         ("kind", field IntegerField []);
         ("description", field TextField [Null true]);
         ("hotline",
          field (ForeignKeyField "Hotline") [Backref "auditlogs"; Null true]);
         ("user", field CharField [Null true]);
         ("metadata", field TextField [Null true]);
         ("reporter_number", field TextField [Null true; Index false]) ];
     indexes := [] |}.

Definition AuditLog : Model := add_index AuditLog_class ["hotline"; "timestamp"].

Definition BlockList : Model :=
  {| name := "BlockList";
     fields :=
       [ ("timestamp", field DateTimeField [Default datetime_utcnow]);
         ("hotline", field (ForeignKeyField "Hotline") [Backref "blocklist"]);
         ("number", field TextField []);
         ("blocked_by", field TextField [Null true]) ];
     indexes := [] |}.

Definition models : list Model :=
  [Number; Hotline; HotlineMember; HotlineAdmin; AuditLog; BlockList].

(** ** Runs of the program *)

(** Process start: the handle is unbound and every database is empty. *)
Definition boot (clk : nat -> Z) (fk : nat -> bool) : World :=
  {| clock := clk;
     ticks := 0;
     db := Proxy_new;
     stores := fun c => empty_database (fk c) |}.

(** The worlds a program can be in: after any number of bindings of the
    handle and of [create] calls on the module's models. *)
Inductive reachable : World -> Prop :=
| reach_boot : forall clk fk, reachable (boot clk fk)
| reach_initialize : forall w o,
    reachable w -> reachable (snd (initialize o w))
| reach_create : forall w m q,
    reachable w -> In m models -> reachable (snd (create m q w)).




(** ** Well-formed tables *)

(** Primary keys identify rows. *)
Definition ids_distinct (t : table) : Prop := NoDup (map rid (rows t)).

(** Every index of the model lists, under each key, the ids of exactly the
    rows that carry the key, oldest first. *)
Definition index_consistent (m : Model) (t : table) : Prop :=
  forall ix k,
    In ix (fields_to_index m) ->
    idx_lookup k (index_of (indices t) ix)
    = map rid (filter (matches (idx_fields ix) k) (rows t)).

(** A row respects the [NOT NULL] columns of its model. *)
Definition row_ok (m : Model) (r : row) : Prop :=
  forall n f, In (n, f) (fields m) -> null f = false -> get n (cols r) <> VNone.

Definition table_ok (m : Model) (t : table) : Prop :=
  ids_distinct t /\ index_consistent m t /\ Forall (row_ok m) (rows t).

Definition world_ok (w : World) : Prop :=
  forall c m, In m models -> table_ok m (tables (stores w c) (name m)).

(** Where a database enforces foreign keys, every key that is set is the id
    of a stored row of the model it points to. *)
Definition references_ok (w : World) : Prop :=
  forall c m r n f rel,
    In m models ->
    In r (rows (tables (stores w c) (name m))) ->
    In (n, f) (fields m) -> fclass f = ForeignKeyField rel ->
    foreign_keys (stores w c) = true ->
    get n (cols r) = VNone
    \/ refers_to (rows (tables (stores w c) rel)) (get n (cols r)) = true.

(** The wall clock never steps back. *)
Definition clock_monotone (w : World) : Prop :=
  forall i j : nat, (i <= j)%nat -> clock w i <= clock w j.

(** The instant stored in the [timestamp] column of a row. *)
Definition stamp (r : row) : Z :=
  match get "timestamp" (cols r) with
  | VDatetime t => t
  | _ => 0
  end.

(** A [create] call on a model with a defaulted [timestamp] that leaves the
    timestamp out. *)
Definition omits_timestamp (mq : Model * list (string * value)) : Prop :=
  (fst mq = AuditLog \/ fst mq = BlockList)
  /\ kw_value (fst mq) "timestamp" (snd mq) = None.

(** ** Sample data *)

(** A class with [serialize]/[deserialize]: a switch, stored as "on"/"off". *)
Definition Toggle : PyClass bool :=
  {| serialize := fun b : bool =>
       Ok (Prim (VStr (if b then "on" else "off")));
     deserialize := fun v : pyval bool =>
       match v with
       | Prim (VStr s) =>
           if String.eqb s "on" then Ok (Obj true)
           else if String.eqb s "off" then Ok (Obj false)
           else Err (UserException "not a toggle")
       | _ => Err (UserException "not a toggle")
       end |}.

Definition toggle_classes (_ : string) : PyClass bool := Toggle.
Definition toggle_class_of (_ : bool) : string := "Toggle".
Definition toggle_str (_ : pyval bool) : string := "<Toggle object>".
Definition toggle_adapt (_ : field_class) (v : pyval bool) : result (pyval bool) :=
  Ok v.

(** A wall clock that is set back after its first reading. *)
Definition clock_set_back (n : nat) : Z :=
  match n with
  | O => 10
  | S _ => 5
  end.

Definition steady_clock (n : nat) : Z := Z.of_nat n.

Definition no_foreign_keys (_ : nat) : bool := false.

(** A process whose handle was bound to database 1 at startup. *)
Definition started (clk : nat -> Z) : World :=
  snd (initialize (Some 1%nat) (boot clk no_foreign_keys)).



(** One hotline, then two of its members. *)
Definition conf_hotline : list (string * value) :=
  [("name", VStr "Conf"); ("slug", VStr "conf")].

Definition one_hotline : World :=
  snd (create Hotline conf_hotline (started steady_clock)).

Definition ada : list (string * value) :=
  [("hotline", VInt 1); ("name", VStr "Ada"); ("number", VStr "+15550001");
   ("verified", VBool true)].

Definition bob : list (string * value) :=
  [("hotline", VInt 1); ("name", VStr "Bob"); ("number", VStr "+15550002");
   ("verified", VBool false)].

Definition with_members : World :=
  snd (create HotlineMember bob (snd (create HotlineMember ada one_hotline))).

(** ** Reading by primary key, and back-references *)









(** No two rows of a table agree on the columns of a unique index, unless a
    column of the key is [NULL]. *)
Definition keys_unique (m : Model) (t : table) : Prop :=
  forall ix r1 r2,
    In ix (fields_to_index m) -> idx_unique ix = true ->
    In r1 (rows t) -> In r2 (rows t) ->
    key_of (idx_fields ix) (cols r1) = key_of (idx_fields ix) (cols r2) ->
    forallb (fun v => negb (is_none v)) (key_of (idx_fields ix) (cols r1)) = true ->
    r1 = r2.


(** The rows the sample data stores, and the same start on a database that
    enforces foreign keys. *)
Definition conf_row : row :=
  {| rid := 1;
     cols := [("name", VStr "Conf"); ("slug", VStr "conf");
              ("primary_number", VNone); ("primary_number_id", VNone);
              ("country", VStr "US"); ("voice_greeting", VNone)] |}.

Definition ada_row : row := {| rid := 1; cols := ada |}.

Definition enforcing (_ : nat) : bool := true.

Definition strict_started : World :=
  snd (initialize (Some 1%nat) (boot steady_clock enforcing)).

Definition strict_member : World :=
  snd (create HotlineMember ada
         (snd (create Hotline conf_hotline strict_started))).

(** * Properties *)

(** ** The serializable-field adapter *)

Section AdapterFacts.

Variable T : Type.
Variable classes : string -> PyClass T.
Variable class_of : T -> string.
Variable text_type : pyval T -> string.
Variable builtin_adapt : field_class -> pyval T -> result (pyval T).

Let db_value' := db_value T classes class_of text_type builtin_adapt.
Let python_value' := python_value T classes text_type builtin_adapt.
Let store_then_load' :=
  store_then_load T classes class_of text_type builtin_adapt.

(** The base conversions let [None] through, whatever the column class. *)
Lemma Field_db_value_None (f : pyval T -> result (pyval T)) :
  Field_db_value T f (Prim VNone) = Ok (Prim VNone).
Proof. reflexivity. Qed.

(** A text column stores text as it is and loads it as it is. *)
Lemma text_column_identity (c : field_class) (s : string) :
  c = TextField \/ c = CharField ->
  db_value' c (Prim (VStr s)) = Ok (Prim (VStr s))
  /\ python_value' c (Prim (VStr s)) = Ok (Prim (VStr s)).
Proof. intros [-> | ->]; split; reflexivity. Qed.

(** C2. For a class [C] whose [serialize] returns text and whose
    [deserialize] undoes it, writing an instance of [C] through a
    [SerializableField] of [C] and reading the stored text back returns
    the instance. *)
Theorem SerializableField_roundtrip (C : string) :
  (forall v, class_of v = C ->
             exists s, serialize (classes C) v = Ok (Prim (VStr s))) ->
  (forall v s, class_of v = C ->
               serialize (classes C) v = Ok (Prim (VStr s)) ->
               deserialize (classes C) (Prim (VStr s)) = Ok (Obj v)) ->
  forall v, class_of v = C ->
    store_then_load' (SerializableField C) (Obj v) = Ok (Obj v).
Proof.
  intros Htext Hinv v Hv.
  destruct (Htext v Hv) as [s Hs].
  unfold store_then_load', store_then_load, db_value,
    SerializableField_db_value, call_serialize.
  rewrite Hv, Hs. cbn.
  unfold SerializableField_python_value.
  now apply Hinv.
Qed.

(** C9. The adapter has no case for [None] and handles no error: writing
    a value without a [serialize] method, [None] included, raises
    [AttributeError]; writing an instance returns whatever its [serialize]
    returns or raises; reading hands the stored value, [None] included, to
    [deserialize] and returns whatever that returns or raises. *)
Theorem SerializableField_no_null_handling (C : string) :
  db_value' (SerializableField C) (Prim VNone)
  = Err (AttributeError "'NoneType' object has no attribute 'serialize'")
  /\ (forall p : value,
        db_value' (SerializableField C) (Prim p)
        = Err (AttributeError (no_attribute p "serialize")))
  /\ (forall o : T,
        db_value' (SerializableField C) (Obj o)
        = serialize (classes (class_of o)) o)
  /\ python_value' (SerializableField C) (Prim VNone)
     = deserialize (classes C) (Prim VNone)
  /\ (forall v : pyval T,
        python_value' (SerializableField C) v = deserialize (classes C) v).
Proof. repeat split. Qed.


End AdapterFacts.

(** C2 at the sample class. *)
Lemma SerializableField_roundtrip_Toggle :
  store_then_load bool toggle_classes toggle_class_of toggle_str toggle_adapt
    (SerializableField "Toggle") (Obj true) = Ok (Obj true).
Proof.
  apply (SerializableField_roundtrip bool toggle_classes toggle_class_of
           toggle_str toggle_adapt "Toggle").
  - intros v _. exists (if v then "on" else "off"). reflexivity.
  - intros [] s _ H; cbn in H; injection H as <-; reflexivity.
  - reflexivity.
Defined.



(** ** Keys, rows and indexes *)

Lemma value_eqb_eq (x y : value) : value_eqb x y = true <-> x = y.
Proof.
  destruct x, y; cbn; split; intros H; try discriminate; try reflexivity.
  - apply String.eqb_eq in H. now subst.
  - injection H as ->. apply String.eqb_refl.
  - apply Z.eqb_eq in H. now subst.
  - injection H as ->. apply Z.eqb_refl.
  - apply Bool.eqb_prop in H. now subst.
  - injection H as ->. apply Bool.eqb_reflx.
  - apply Z.eqb_eq in H. now subst.
  - injection H as ->. apply Z.eqb_refl.
Qed.

Lemma list_eqb_eq {A : Type} (eqb : A -> A -> bool) :
  (forall x y, eqb x y = true <-> x = y) ->
  forall l1 l2, list_eqb eqb l1 l2 = true <-> l1 = l2.
Proof.
  intros Heq. induction l1 as [|x l1 IH]; intros [|y l2]; cbn;
    split; intros H; try discriminate; try reflexivity.
  - apply andb_true_iff in H as [Hx Hl].
    apply Heq in Hx. apply IH in Hl. now subst.
  - injection H as -> ->. apply andb_true_iff. split.
    + now apply Heq.
    + now apply IH.
Qed.

Lemma key_eqb_eq (k1 k2 : list value) : key_eqb k1 k2 = true <-> k1 = k2.
Proof. apply list_eqb_eq, value_eqb_eq. Qed.

Lemma key_eqb_refl (k : list value) : key_eqb k k = true.
Proof. now apply key_eqb_eq. Qed.

Lemma names_eqb_eq (l1 l2 : list string) : names_eqb l1 l2 = true <-> l1 = l2.
Proof. apply list_eqb_eq, String.eqb_eq. Qed.

Lemma index_eqb_eq (x y : ModelIndex) : index_eqb x y = true <-> x = y.
Proof.
  destruct x as [fx ux], y as [fy uy]. unfold index_eqb. cbn.
  rewrite andb_true_iff, names_eqb_eq. split.
  - intros [-> H]. apply Bool.eqb_prop in H. now subst.
  - intros H. injection H as -> ->. split; [reflexivity | apply Bool.eqb_reflx].
Qed.

Lemma get_set_same (n : string) (v : value) (d : list (string * value)) :
  get n (set n v d) = v.
Proof.
  unfold get. induction d as [|[k x] d IH]; cbn.
  - now rewrite String.eqb_refl.
  - destruct (String.eqb n k) eqn:E; cbn.
    + now rewrite String.eqb_refl.
    + now rewrite E.
Qed.

Lemma get_set_other (n n' : string) (v : value) (d : list (string * value)) :
  String.eqb n' n = false -> get n (set n' v d) = get n d.
Proof.
  intros Hn. unfold get. induction d as [|[k x] d IH]; cbn.
  - rewrite String.eqb_sym, Hn. reflexivity.
  - destruct (String.eqb n' k) eqn:E; cbn.
    + apply String.eqb_eq in E. subst k.
      rewrite String.eqb_sym, Hn. reflexivity.
    + destruct (String.eqb n k); [reflexivity | exact IH].
Qed.

(** What the instance holds for a column after [__init__]: the keyword's
    value when one was given, the default otherwise. *)
Lemma get_after_setattr (m : Model) (n : string) (q : list (string * value)) :
  forall d,
    get n (fold_left (setattr m) q d)
    = match kw_value m n q with
      | Some v => v
      | None => get n d
      end.
Proof.
  induction q as [|kv q IH]; intros d; cbn; [reflexivity|].
  rewrite IH. destruct (kw_value m n q); [reflexivity|].
  unfold setattr. destruct (field_for (fields m) (fst kv)) as [n'|];
    [|reflexivity].
  destruct (String.eqb n' n) eqn:E.
  - apply String.eqb_eq in E. subst. apply get_set_same.
  - now apply get_set_other.
Qed.

(** A stored row holds, for each declared column, the instance's value. *)
Lemma get_row_values (fs : list (string * Field)) (d : list (string * value))
  (n : string) :
  In n (map fst fs) ->
  get n (map (fun nf : string * Field => (fst nf, get (fst nf) d)) fs) = get n d.
Proof.
  unfold get at 1. induction fs as [|[k f] fs IH]; cbn; [contradiction|].
  intros Hin. destruct (String.eqb n k) eqn:E.
  - apply String.eqb_eq in E. now subst.
  - destruct Hin as [-> | Hin]; [now rewrite String.eqb_refl in E|].
    now apply IH.
Qed.

Lemma idx_lookup_add (k k0 : list value) (i : Z) (ix : index_data) :
  idx_lookup k (idx_add k0 i ix)
  = if key_eqb k k0 then idx_lookup k ix ++ [i] else idx_lookup k ix.
Proof.
  induction ix as [|[k' ids] ix IH]; cbn.
  - destruct (key_eqb k k0); reflexivity.
  - destruct (key_eqb k0 k') eqn:E0; cbn.
    + apply key_eqb_eq in E0. subst k'.
      destruct (key_eqb k k0); reflexivity.
    + destruct (key_eqb k k') eqn:E; [|exact IH].
      apply key_eqb_eq in E. subst k'.
      destruct (key_eqb k k0) eqn:E1; [|reflexivity].
      apply key_eqb_eq in E1. subst k0.
      rewrite key_eqb_refl in E0. discriminate.
Qed.

Lemma index_of_map (f : ModelIndex -> index_data) (l : list ModelIndex)
  (ix : ModelIndex) :
  In ix l -> index_of (map (fun i => (i, f i)) l) ix = f ix.
Proof.
  induction l as [|i l IH]; cbn; [contradiction|].
  intros Hin. destruct (index_eqb ix i) eqn:E.
  - apply index_eqb_eq in E. now subst.
  - destruct Hin as [-> | Hin]; [|now apply IH].
    assert (index_eqb ix ix = true) as H by now apply index_eqb_eq.
    rewrite H in E. discriminate.
Qed.

Lemma rid_below_fresh (rs : list row) (r : row) :
  In r rs -> rid r < fresh_id rs.
Proof.
  unfold fresh_id. induction rs as [|r' rs IH]; cbn [fold_right In];
    [contradiction|].
  intros [-> | Hin]; [lia|]. specialize (IH Hin). lia.
Qed.

Lemma fresh_id_unused (rs : list row) : ~ In (fresh_id rs) (map rid rs).
Proof.
  intros Hin. apply in_map_iff in Hin as (r & Hr & Hin).
  apply rid_below_fresh in Hin. lia.
Qed.



(** ** Constraints *)

Lemma not_null_violation_none (mn : string) (fs : list (string * Field))
  (d : list (string * value)) :
  not_null_violation mn fs d = None ->
  forall n f, In (n, f) fs -> null f = false -> get n d <> VNone.
Proof.
  induction fs as [|[k g] fs IH]; cbn; [contradiction|].
  intros H n f [Heq | Hin] Hnull.
  - injection Heq as -> ->. rewrite Hnull in H. cbn in H.
    destruct (get n d); cbn in H; discriminate.
  - destruct (negb (null g) && is_none (get k d)); [discriminate|].
    now apply (IH H n f).
Qed.

Lemma not_null_violation_some (mn : string) (fs : list (string * Field))
  (d : list (string * value)) (n : string) (f : Field) :
  In (n, f) fs -> null f = false -> get n d = VNone ->
  exists col, not_null_violation mn fs d = Some (NotNull mn col).
Proof.
  induction fs as [|[k g] fs IH]; cbn; [contradiction|].
  intros Hin Hnull Hget.
  destruct (negb (null g) && is_none (get k d)) eqn:E; [now exists k|].
  destruct Hin as [Heq | Hin]; [|now apply IH].
  injection Heq as -> ->. rewrite Hnull, Hget in E. discriminate.
Qed.

Lemma not_null_violation_shape (mn : string) (fs : list (string * Field))
  (d : list (string * value)) (v : violation) :
  not_null_violation mn fs d = Some v -> exists col, v = NotNull mn col.
Proof.
  induction fs as [|[k g] fs IH]; cbn; [discriminate|].
  destruct (negb (null g) && is_none (get k d)); [|exact IH].
  intros H. injection H as <-. now exists k.
Qed.

Lemma check_insert_stored (m : Model) (dbs : database)
  (d : list (string * value)) (r : row) :
  check_insert m dbs d = inr r ->
  rid r = fresh_id (rows (tables dbs (name m)))
  /\ cols r = map (fun nf : string * Field => (fst nf, get (fst nf) d)) (fields m)
  /\ not_null_violation (name m) (fields m) (cols r) = None.
Proof.
  unfold check_insert.
  destruct (not_null_violation _ _ _) eqn:E1; [discriminate|].
  destruct (unique_violation _ _ _ _); [discriminate|].
  destruct (if foreign_keys dbs then _ else _); [discriminate|].
  intros H. injection H as <-. cbn. auto.
Qed.

Lemma check_insert_row_ok (m : Model) (dbs : database)
  (d : list (string * value)) (r : row) :
  check_insert m dbs d = inr r -> row_ok m r.
Proof.
  intros H. apply check_insert_stored in H as (_ & _ & H).
  intros n f. now apply not_null_violation_none with (mn := name m) (fs := fields m).
Qed.

(** ** Well-formedness is kept by inserts *)

Lemma empty_table_ok (m : Model) : table_ok m empty_table.
Proof.
  repeat split.
  - constructor.
  - constructor.
Qed.

Lemma key_eqb_sym (k1 k2 : list value) : key_eqb k1 k2 = key_eqb k2 k1.
Proof.
  destruct (key_eqb k1 k2) eqn:E1, (key_eqb k2 k1) eqn:E2; try reflexivity.
  - apply key_eqb_eq in E1. subst. rewrite key_eqb_refl in E2. discriminate.
  - apply key_eqb_eq in E2. subst. rewrite key_eqb_refl in E1. discriminate.
Qed.

Lemma table_insert_ok (m : Model) (t : table) (r : row) :
  table_ok m t -> rid r = fresh_id (rows t) -> row_ok m r ->
  table_ok m (table_insert m r t).
Proof.
  intros (Hids & Hidx & Hrows) Hrid Hr. repeat split.
  - unfold ids_distinct. cbn. rewrite map_app. cbn.
    apply Permutation_NoDup with (l := rid r :: map rid (rows t)).
    + apply Permutation_cons_append.
    + constructor; [|exact Hids]. rewrite Hrid. apply fresh_id_unused.
  - intros ix k Hix. cbn.
    rewrite (index_of_map
               (fun i => idx_add (key_of (idx_fields i) (cols r)) (rid r)
                                 (index_of (indices t) i))) by exact Hix.
    rewrite idx_lookup_add, filter_app, map_app, (Hidx ix k Hix).
    cbn [filter].
    replace (matches (idx_fields ix) k r)
      with (key_eqb k (key_of (idx_fields ix) (cols r)))
      by (unfold matches; apply key_eqb_sym).
    destruct (key_eqb _ _); cbn [map]; [reflexivity | now rewrite app_nil_r].
  - cbn. apply Forall_app. split; [exact Hrows | now constructor].
Qed.

Lemma models_names_inj (m m' : Model) :
  In m models -> In m' models -> name m = name m' -> m = m'.
Proof.
  cbn. intros Hm Hm' Hn.
  repeat (destruct Hm as [<- | Hm]; [
    repeat (destruct Hm' as [<- | Hm']; [
      first [reflexivity | discriminate Hn] |]); contradiction |]).
  contradiction.
Qed.

(** ** What [create] does *)

Lemma get_default_dict_frame (fs : list (string * Field)) :
  forall w, exists d w',
    get_default_dict fs w = (Ok d, w')
    /\ clock w' = clock w /\ db w' = db w /\ stores w' = stores w
    /\ (ticks w <= ticks w')%nat.
Proof.
  induction fs as [|[n f] fs IH]; intros w; cbn.
  - exists [], w. auto.
  - destruct (default f) as [[v | g]|].
    + destruct (IH w) as (d & w' & E & H). unfold bind. rewrite E.
      exists ((n, v) :: d), w'. auto.
    + destruct g. unfold bind, call, utcnow.
      destruct (IH (mkWorld (clock w) (S (ticks w)) (db w) (stores w)))
        as (d & w' & E & Hc & Hd & Hs & Ht).
      rewrite E. cbn in *.
      exists ((n, VDatetime (clock w (ticks w))) :: d), w'.
      repeat split; auto. lia.
    + apply IH.
Qed.

(** [create] first builds the instance, which cannot fail and touches only
    the clock; then the handle is resolved, the constraints are checked and
    the row is stored. *)
Lemma create_spec (m : Model) (q : list (string * value)) (w : World) :
  exists d w1,
    Model_init m q w = (Ok d, w1)
    /\ clock w1 = clock w /\ db w1 = db w /\ stores w1 = stores w
    /\ (ticks w <= ticks w1)%nat
    /\ create m q w
       = match obj (db w) with
         | None => (Err (AttributeError "Cannot use uninitialized Proxy."), w1)
         | Some c =>
             match check_insert m (stores w c) d with
             | inl v => (Err (IntegrityError v), w1)
             | inr r =>
                 (Ok r,
                  set_store w1 c
                    (set_table (stores w c) (name m)
                       (table_insert m r (tables (stores w c) (name m)))))
             end
         end.
Proof.
  destruct (get_default_dict_frame (fields m) w)
    as (d0 & w1 & E & Hc & Hd & Hs & Ht).
  exists (fold_left (setattr m) q d0), w1.
  unfold create, Model_init, bind. rewrite E. cbn.
  repeat split; auto.
  unfold save_force_insert, bind, Proxy_getattr. rewrite Hd.
  destruct (obj (db w)) as [c|]; cbn; [|reflexivity].
  rewrite Hs. destruct (check_insert m (stores w c) _); reflexivity.
Qed.

(** A [create] that raises stores nothing. *)
Lemma create_error_keeps_stores (m : Model) (q : list (string * value))
  (w w' : World) (e : exn) :
  create m q w = (Err e, w') -> stores w' = stores w.
Proof.
  destruct (create_spec m q w) as (d & w1 & _ & _ & _ & Hs & _ & E).
  rewrite E. destruct (obj (db w)) as [c|].
  - destruct (check_insert m (stores w c) d); intros H; inversion H.
    now subst.
  - intros H. inversion H. now subst.
Qed.

Lemma create_keeps_ok (m : Model) (q : list (string * value)) (w : World) :
  In m models -> world_ok w -> world_ok (snd (create m q w)).
Proof.
  intros Hm Hok.
  destruct (create_spec m q w) as (d & w1 & _ & _ & _ & Hs & _ & E).
  rewrite E. clear E.
  assert (world_ok w1) as Hok1.
  { intros c m' Hm'. rewrite Hs. now apply Hok. }
  destruct (obj (db w)) as [c|]; [|exact Hok1].
  destruct (check_insert m (stores w c) d) as [v | r] eqn:E; [exact Hok1|].
  intros c' m' Hm'. cbn.
  destruct (Nat.eqb c' c) eqn:Ec; [|now apply Hok1].
  cbn. destruct (String.eqb (name m') (name m)) eqn:En.
  - apply String.eqb_eq in En.
    rewrite (models_names_inj m' m Hm' Hm En).
    apply table_insert_ok.
    + now apply Hok.
    + now apply check_insert_stored in E.
    + now apply check_insert_row_ok in E.
  - now apply Hok.
Qed.

Lemma foreign_key_violation_none_inv (mn : string)
  (fs : list (string * Field)) (tbl : string -> table)
  (d : list (string * value)) :
  foreign_key_violation mn fs tbl d = None ->
  forall n f rel, In (n, f) fs -> fclass f = ForeignKeyField rel ->
                  get n d = VNone \/ refers_to (rows (tbl rel)) (get n d) = true.
Proof.
  induction fs as [|[k g] fs IH]; cbn; [contradiction|].
  intros H n f rel [Heq | Hin] Hf.
  - injection Heq as -> ->. rewrite Hf in H.
    destruct (get n d) eqn:Eg; [now left | right..];
      cbn in H;
      (destruct (refers_to (rows (tbl rel)) _); [reflexivity | discriminate]).
  - apply (IH) with (f := f); auto.
    destruct (fclass g); auto.
    destruct (negb (is_none (get k d)) && _); [discriminate | exact H].
Qed.

Lemma refers_to_app (rs rs' : list row) (v : value) :
  refers_to rs v = true -> refers_to (rs ++ rs') v = true.
Proof.
  unfold refers_to. rewrite existsb_app. intros ->. reflexivity.
Qed.

Lemma check_insert_references (m : Model) (dbs : database)
  (d : list (string * value)) (r : row) :
  check_insert m dbs d = inr r ->
  foreign_keys dbs = true ->
  forall n f rel, In (n, f) (fields m) -> fclass f = ForeignKeyField rel ->
                  get n (cols r) = VNone
                  \/ refers_to (rows (tables dbs rel)) (get n (cols r)) = true.
Proof.
  unfold check_insert.
  destruct (not_null_violation _ _ _); [discriminate|].
  destruct (unique_violation _ _ _ _); [discriminate|].
  intros H Hfk. rewrite Hfk in H.
  destruct (foreign_key_violation _ _ _ _) eqn:E; [discriminate|].
  injection H as <-. cbn [cols].
  exact (foreign_key_violation_none_inv _ _ _ _ E).
Qed.

Lemma create_keeps_references (m : Model) (q : list (string * value))
  (w : World) :
  In m models -> references_ok w -> references_ok (snd (create m q w)).
Proof.
  intros Hm Hok.
  destruct (create_spec m q w) as (d & w1 & _ & _ & _ & Hs & _ & E).
  rewrite E. clear E.
  assert (references_ok w1) as Hok1.
  { intros c m' r n f rel. rewrite Hs. apply Hok. }
  destruct (obj (db w)) as [c|]; [|exact Hok1].
  destruct (check_insert m (stores w c) d) as [v | r0] eqn:E; [exact Hok1|].
  intros c' m' r n f rel Hm' Hr Hnf Hf. cbn in Hr |- *.
  destruct (Nat.eqb c' c) eqn:Ec; [|now apply (Hok1 c' m' r n f rel)].
  apply Nat.eqb_eq in Ec. subst c'. cbn in Hr |- *. intros Hfk.
  assert (get n (cols r) = VNone
          \/ refers_to (rows (tables (stores w c) rel)) (get n (cols r)) = true)
    as [Hnone | Href].
  { destruct (String.eqb (name m') (name m)) eqn:En.
    - apply String.eqb_eq in En.
      pose proof (models_names_inj m' m Hm' Hm En) as ->.
      cbn in Hr. apply in_app_or in Hr as [Hr | [<- | []]].
      + now apply (Hok c m r n f rel).
      + exact (check_insert_references m (stores w c) d r0 E Hfk n f rel Hnf Hf).
    - now apply (Hok c m' r n f rel). }
  - now left.
  - right. destruct (String.eqb rel (name m)) eqn:Erel; [|exact Href].
    apply String.eqb_eq in Erel. subst rel. cbn. now apply refers_to_app.
Qed.

Lemma reachable_references (w : World) : reachable w -> references_ok w.
Proof.
  induction 1 as [clk fk | w o _ IH | w m q _ IH Hm].
  - intros c m r n f rel _ [].
  - exact IH.
  - now apply create_keeps_references.
Qed.

(** Every world of a run is well formed. *)
Lemma reachable_ok (w : World) : reachable w -> world_ok w.
Proof.
  induction 1 as [clk fk | w o _ IH | w m q _ IH Hm].
  - intros c m _. apply empty_table_ok.
  - exact IH.
  - now apply create_keeps_ok.
Qed.

Lemma not_null_violation_complete (mn : string) (fs : list (string * Field))
  (d : list (string * value)) :
  (forall n f, In (n, f) fs -> null f = false -> get n d <> VNone) ->
  not_null_violation mn fs d = None.
Proof.
  induction fs as [|[k g] fs IH]; cbn; [reflexivity|].
  intros H.
  assert (not_null_violation mn fs d = None) as Hrest.
  { apply IH. intros n f Hin. apply H. now right. }
  destruct (null g) eqn:En; cbn; [exact Hrest|].
  destruct (is_none (get k d)) eqn:Eg; [|exact Hrest].
  exfalso. apply (H k g); auto.
  destruct (get k d); [reflexivity | discriminate..].
Qed.

Lemma is_none_false (v : value) : v <> VNone -> is_none v = false.
Proof. destruct v; intros H; [contradiction | reflexivity..]. Qed.

(** ** The shared handle *)

(** C4, as the module has it.  The handle starts unbound; on an unbound
    handle every [create] and every query raises [AttributeError] at once
    and stores nothing; binding never fails, and a second binding replaces
    the first. *)
Theorem unbound_handle_fails_and_rebinding_replaces :
  (forall clk fk, obj (db (boot clk fk)) = None)
  /\ (forall w, obj (db w) = None ->
        (forall m q,
            fst (create m q w)
            = Err (AttributeError "Cannot use uninitialized Proxy.")
            /\ stores (snd (create m q w)) = stores w)
        /\ (forall m cs k,
              select_where m cs k w
              = (Err (AttributeError "Cannot use uninitialized Proxy."), w)))
  /\ (forall w o,
        initialize o w
        = (Ok tt, mkWorld (clock w) (ticks w) (mkProxy o) (stores w)))
  /\ (forall w c1 c2,
        (_ <- initialize (Some c1) ;; initialize (Some c2)) w
        = (Ok tt, mkWorld (clock w) (ticks w) (mkProxy (Some c2)) (stores w))).
Proof.
  split; [reflexivity|]. split; [|split; reflexivity].
  intros w Hw. split.
  - intros m q.
    destruct (create_spec m q w) as (d & w1 & _ & _ & _ & Hs & _ & E).
    rewrite E, Hw. cbn. auto.
  - intros m cs k. unfold select_where, bind, Proxy_getattr.
    rewrite Hw. reflexivity.
Qed.

(** C4 at process start: a [create] before any binding. *)
Lemma unbound_handle_fails_at_boot :
  fst (create AuditLog [("kind", VInt 1)] (boot steady_clock no_foreign_keys))
  = Err (AttributeError "Cannot use uninitialized Proxy.").
Proof.
  pose proof unbound_handle_fails_and_rebinding_replaces as (_ & H & _).
  apply (H (boot steady_clock no_foreign_keys)). reflexivity.
Defined.

(** C4 as claimed fails: binding the handle to database 1 and then to
    database 2 raises nothing, and the hotline stored through the first
    binding is silently out of reach through the second. *)
Lemma second_binding_is_accepted :
  fst ((_ <- initialize (Some 1%nat) ;; initialize (Some 2%nat))
         (boot steady_clock no_foreign_keys)) = Ok tt
  /\ fst ((_ <- initialize (Some 1%nat) ;;
           _ <- create Hotline [("name", VStr "Conf"); ("slug", VStr "conf")] ;;
           select_where Hotline ["slug"] [VStr "conf"])
            (boot steady_clock no_foreign_keys))
     = Ok [ {| rid := 1;
               cols := [("name", VStr "Conf"); ("slug", VStr "conf");
                        ("primary_number", VNone); ("primary_number_id", VNone);
                        ("country", VStr "US"); ("voice_greeting", VNone)] |} ]
  /\ fst ((_ <- initialize (Some 1%nat) ;;
           _ <- create Hotline [("name", VStr "Conf"); ("slug", VStr "conf")] ;;
           _ <- initialize (Some 2%nat) ;;
           select_where Hotline ["slug"] [VStr "conf"])
            (boot steady_clock no_foreign_keys))
     = Ok [].
Proof. repeat split. Qed.

(** ** Hotline *)

Lemma Hotline_init (q : list (string * value)) (w : World) :
  Model_init Hotline q w
  = (Ok (fold_left (setattr Hotline) q [("country", VStr "US")]), w).
Proof. reflexivity. Qed.

(** C3. When a hotline with some slug is stored, creating a hotline with
    the same slug raises [IntegrityError] and leaves the whole state as it
    was; when the new hotline has its required columns, the error is the
    uniqueness violation on [slug]. *)
Theorem Hotline_slug_is_unique (w : World) (c : nat) (r : row)
  (q : list (string * value)) (v : value) :
  obj (db w) = Some c ->
  In r (rows (tables (stores w c) (name Hotline))) ->
  get "slug" (cols r) = v ->
  v <> VNone ->
  kw_value Hotline "slug" q = Some v ->
  (exists viol, create Hotline q w = (Err (IntegrityError viol), w))
  /\ (forall nm,
        kw_value Hotline "name" q = Some nm -> nm <> VNone ->
        kw_value Hotline "country" q <> Some VNone ->
        create Hotline q w
        = (Err (IntegrityError (Unique "Hotline" ["slug"])), w)).
Proof.
  intros Hc Hr Hslug Hv Hq.
  destruct (create_spec Hotline q w) as (d & w1 & Hinit & _ & _ & _ & _ & E).
  rewrite Hotline_init in Hinit. injection Hinit as <- <-.
  rewrite E, Hc. clear E.
  set (d := fold_left (setattr Hotline) q [("country", VStr "US")]).
  assert (forall n, In n (map fst (fields Hotline)) ->
            get n (map (fun nf : string * Field => (fst nf, get (fst nf) d))
                       (fields Hotline))
            = match kw_value Hotline n q with
              | Some x => x
              | None => get n [("country", VStr "US")]
              end) as Hget.
  { intros n Hn. rewrite get_row_values by exact Hn. apply get_after_setattr. }
  assert (unique_violation (name Hotline) (fields_to_index Hotline)
            (rows (tables (stores w c) (name Hotline)))
            (map (fun nf : string * Field => (fst nf, get (fst nf) d))
                 (fields Hotline))
          = Some (Unique "Hotline" ["slug"])) as Huniq.
  { change (fields_to_index Hotline)
      with ([mkIndex ["slug"] true; mkIndex ["primary_number_id"] false;
             mkIndex ["slug"] false; mkIndex ["primary_number"] false]).
    cbn [unique_violation idx_fields idx_unique key_of map forallb andb].
    rewrite Hget by (cbn; tauto). rewrite Hq.
    rewrite (is_none_false v Hv). cbn [negb andb].
    replace (existsb (matches ["slug"] [v])
               (rows (tables (stores w c) (name Hotline)))) with true;
      [reflexivity|].
    symmetry. apply existsb_exists. exists r. split; [exact Hr|].
    unfold matches. cbn [key_of map]. rewrite Hslug. apply key_eqb_refl. }
  unfold check_insert. rewrite Huniq. split.
  - destruct (not_null_violation _ _ _); eauto.
  - intros nm Hnm Hnm' Hcountry.
    rewrite not_null_violation_complete; [reflexivity|].
    intros n f Hin Hnull. cbn in Hin.
    repeat (destruct Hin as [Hin | Hin];
            [injection Hin as <- <-; try discriminate Hnull|]);
      try contradiction;
      rewrite Hget by (cbn; tauto).
    + now rewrite Hnm.
    + now rewrite Hq.
    + destruct (kw_value Hotline "country" q) as [x|]; [|discriminate].
      intros ->. now apply Hcountry.
Qed.

(** ** Successful creation *)

Lemma create_ok_inv (m : Model) (q : list (string * value)) (w w' : World)
  (r : row) :
  create m q w = (Ok r, w') ->
  exists c d w1,
    obj (db w) = Some c
    /\ Model_init m q w = (Ok d, w1)
    /\ check_insert m (stores w c) d = inr r
    /\ clock w' = clock w
    /\ In r (rows (tables (stores w' c) (name m))).
Proof.
  destruct (create_spec m q w) as (d & w1 & Hinit & Hclk & _ & _ & _ & E).
  rewrite E. clear E. destruct (obj (db w)) as [c|]; [|discriminate].
  destruct (check_insert m (stores w c) d) as [v | r'] eqn:Ec; [discriminate|].
  intros H. injection H as -> <-. exists c, d, w1.
  repeat split; auto. cbn. rewrite Nat.eqb_refl. cbn.
  rewrite String.eqb_refl. cbn. apply in_or_app. right. now left.
Qed.




Lemma Number_init (q : list (string * value)) (w : World) :
  Model_init Number q w
  = (Ok (fold_left (setattr Number) q [("country", VStr "US")]), w).
Proof. reflexivity. Qed.

(** C10. A hotline created without a country has the country "US", and so
    has a number created without one. *)
Theorem country_defaults_to_US (m : Model) (q : list (string * value))
  (w w' : World) (r : row) :
  m = Hotline \/ m = Number ->
  kw_value m "country" q = None ->
  create m q w = (Ok r, w') ->
  get "country" (cols r) = VStr "US"
  /\ exists c, obj (db w) = Some c
               /\ In r (rows (tables (stores w' c) (name m))).
Proof.
  intros Hm Hq Hcreate.
  apply create_ok_inv in Hcreate as (c & d & w1 & Hc & Hinit & Hins & _ & Hin).
  split; [|now exists c].
  apply check_insert_stored in Hins as (_ & -> & _).
  destruct Hm as [-> | ->].
  - rewrite Hotline_init in Hinit. injection Hinit as <- _.
    rewrite get_row_values by (cbn; tauto).
    rewrite get_after_setattr, Hq. reflexivity.
  - rewrite Number_init in Hinit. injection Hinit as <- _.
    rewrite get_row_values by (cbn; tauto).
    rewrite get_after_setattr, Hq. reflexivity.
Qed.

(** ** HotlineAdmin *)

Lemma HotlineAdmin_init (q : list (string * value)) (w : World) :
  Model_init HotlineAdmin q w = (Ok (fold_left (setattr HotlineAdmin) q []), w).
Proof. reflexivity. Qed.



(** ** AuditLog *)

Lemma AuditLog_init (q : list (string * value)) (w : World) :
  Model_init AuditLog q w
  = (Ok (fold_left (setattr AuditLog) q
           [("timestamp", VDatetime (clock w (ticks w)))]),
     mkWorld (clock w) (S (ticks w)) (db w) (stores w)).
Proof. reflexivity. Qed.

Lemma BlockList_init (q : list (string * value)) (w : World) :
  Model_init BlockList q w
  = (Ok (fold_left (setattr BlockList) q
           [("timestamp", VDatetime (clock w (ticks w)))]),
     mkWorld (clock w) (S (ticks w)) (db w) (stores w)).
Proof. reflexivity. Qed.


(** ** Defaulted timestamps *)

(** A [create] that leaves the timestamp out reads the clock once, and the
    row it stores carries that reading. *)
Lemma create_reads_clock (m : Model) (q : list (string * value)) (w : World) :
  omits_timestamp (m, q) ->
  exists res w',
    create m q w = (res, w')
    /\ clock w' = clock w
    /\ ticks w' = S (ticks w)
    /\ forall r, res = Ok r ->
                 get "timestamp" (cols r) = VDatetime (clock w (ticks w)).
Proof.
  intros [Hm Hq]. cbn [fst snd] in Hm, Hq.
  destruct (create_spec m q w) as (d & w1 & Hinit & _ & _ & _ & _ & E).
  exists (fst (create m q w)), (snd (create m q w)).
  split; [apply surjective_pairing|].
  assert (d = fold_left (setattr m) q
                [("timestamp", VDatetime (clock w (ticks w)))]
          /\ w1 = mkWorld (clock w) (S (ticks w)) (db w) (stores w))
    as [-> ->].
  { destruct Hm as [-> | ->].
    - rewrite AuditLog_init in Hinit. injection Hinit as <- <-. auto.
    - rewrite BlockList_init in Hinit. injection Hinit as <- <-. auto. }
  rewrite E. clear E.
  destruct (obj (db w)) as [c|]; [|repeat split; discriminate].
  destruct (check_insert m (stores w c) _) as [v | r'] eqn:Ec;
    [repeat split; discriminate|].
  repeat split. intros r Hr. cbn in Hr. injection Hr as <-.
  apply check_insert_stored in Ec as (_ & -> & _).
  rewrite get_row_values by (destruct Hm as [-> | ->]; cbn; tauto).
  rewrite get_after_setattr, Hq. reflexivity.
Qed.

(** Over a sequence of such calls, the stored timestamps are the clock
    readings taken at strictly increasing positions. *)
Lemma create_all_readings (qs : list (Model * list (string * value))) :
  forall w,
    Forall omits_timestamp qs ->
    exists ks : list nat,
      map (fun mr : Model * row => get "timestamp" (cols (snd mr)))
          (fst (create_all qs w))
      = map (fun k => VDatetime (clock w k)) ks
      /\ StronglySorted lt ks
      /\ Forall (fun k => (ticks w <= k)%nat) ks.
Proof.
  induction qs as [|[m q] qs IH]; intros w Hqs; cbn [create_all].
  - exists []. repeat split; constructor.
  - inversion Hqs as [|? ? Hq Hqs']; subst.
    destruct (create_reads_clock m q w Hq) as (res & w' & E & Hclk & Htk & Hts).
    rewrite E.
    destruct (IH w' Hqs') as (ks & Hmap & Hsorted & Hge).
    rewrite Hclk in Hmap. rewrite Htk in Hge.
    destruct res as [e | r].
    + exists ks. repeat split; auto.
      eapply Forall_impl; [|exact Hge]. cbn. intros; lia.
    + destruct (create_all qs w') as [rs w''] eqn:Eall. cbn [fst] in *.
      exists (ticks w :: ks). cbn [map snd]. split; [|split].
      * rewrite Hmap. f_equal. now apply Hts.
      * constructor; [exact Hsorted|].
        eapply Forall_impl; [|exact Hge]. cbn. intros; lia.
      * constructor; [lia|].
        eapply Forall_impl; [|exact Hge]. cbn. intros; lia.
Qed.

Lemma monotone_readings_sorted (clk : nat -> Z) (ks : list nat) :
  (forall i j : nat, (i <= j)%nat -> clk i <= clk j) ->
  StronglySorted lt ks -> StronglySorted Z.le (map clk ks).
Proof.
  intros Hmono. induction 1 as [|k ks Hs IH Hall]; cbn; constructor.
  - exact IH.
  - apply Forall_map. eapply Forall_impl; [|exact Hall].
    cbn. intros j Hj. apply Hmono. lia.
Qed.

(** C5, as the module has it.  A record of AuditLog or BlockList created
    without a timestamp stores the reading of the UTC wall clock taken at
    its creation; over a sequence of such creations the stored timestamps
    are successive readings of that clock, so they are non-decreasing in
    insertion order whenever the clock does not step back. *)
Theorem defaulted_timestamps_follow_the_clock (w : World)
  (qs : list (Model * list (string * value))) :
  Forall omits_timestamp qs ->
  (forall m q r w',
      omits_timestamp (m, q) -> create m q w = (Ok r, w') ->
      get "timestamp" (cols r) = VDatetime (clock w (ticks w)))
  /\ (exists ks : list nat,
        map (fun mr : Model * row => get "timestamp" (cols (snd mr)))
            (fst (create_all qs w))
        = map (fun k => VDatetime (clock w k)) ks
        /\ StronglySorted lt ks
        /\ Forall (fun k => (ticks w <= k)%nat) ks)
  /\ (clock_monotone w ->
      Sorted Z.le
        (map (fun mr : Model * row => stamp (snd mr)) (fst (create_all qs w)))).
Proof.
  intros Hqs. split; [|split].
  - intros m q r w' Hq Hcreate.
    destruct (create_reads_clock m q w Hq) as (res & w1 & E & _ & _ & Hts).
    rewrite Hcreate in E. injection E as <- _. now apply Hts.
  - now apply create_all_readings.
  - intros Hmono.
    destruct (create_all_readings qs w Hqs) as (ks & Hmap & Hsorted & _).
    apply StronglySorted_Sorted.
    replace (map (fun mr : Model * row => stamp (snd mr)) (fst (create_all qs w)))
      with (map (clock w) ks).
    + now apply monotone_readings_sorted.
    + unfold stamp.
      rewrite <- (map_map (fun mr : Model * row => get "timestamp" (cols (snd mr)))
                    (fun v => match v with VDatetime t => t | _ => 0 end)).
      rewrite Hmap, map_map. reflexivity.
Qed.

(** C5 as claimed fails: when the wall clock is set back between two audit
    entries (10, then 5), the second entry is stamped before the first. *)
Lemma timestamps_step_back_with_the_clock :
  map (fun mr : Model * row => get "timestamp" (cols (snd mr)))
      (fst (create_all [(AuditLog, [("kind", VInt 1)]);
                        (AuditLog, [("kind", VInt 2)])]
                       (started clock_set_back)))
  = [VDatetime 10; VDatetime 5]
  /\ ~ Sorted Z.le
         (map (fun mr : Model * row => stamp (snd mr))
              (fst (create_all [(AuditLog, [("kind", VInt 1)]);
                                (AuditLog, [("kind", VInt 2)])]
                               (started clock_set_back)))).
Proof.
  split; [reflexivity|].
  change (~ Sorted Z.le [10; 5]).
  intros H. inversion H as [|? ? _ Hhd]; subst.
  inversion Hhd; subst. lia.
Qed.

(** ** Queries *)








Lemma HotlineMember_init (q : list (string * value)) (w : World) :
  Model_init HotlineMember q w
  = (Ok (fold_left (setattr HotlineMember) q []), w).
Proof. reflexivity. Qed.




(** ** The properties at the sample data *)

Lemma one_hotline_reachable : reachable one_hotline.
Proof.
  unfold one_hotline, started.
  apply reach_create; [apply reach_initialize, reach_boot | cbn; tauto].
Qed.

Lemma with_members_reachable : reachable with_members.
Proof.
  unfold with_members.
  do 2 (apply reach_create; [|cbn; tauto]).
  apply one_hotline_reachable.
Qed.

(** C3 at the sample data: a second hotline with the slug "conf". *)
Lemma Hotline_slug_is_unique_conf :
  create Hotline [("name", VStr "Other"); ("slug", VStr "conf")] one_hotline
  = (Err (IntegrityError (Unique "Hotline" ["slug"])), one_hotline).
Proof.
  apply (Hotline_slug_is_unique one_hotline 1%nat
           {| rid := 1;
              cols := [("name", VStr "Conf"); ("slug", VStr "conf");
                       ("primary_number", VNone); ("primary_number_id", VNone);
                       ("country", VStr "US"); ("voice_greeting", VNone)] |}
           [("name", VStr "Other"); ("slug", VStr "conf")] (VStr "conf"))
    with (nm := VStr "Other").
  - reflexivity.
  - left. reflexivity.
  - reflexivity.
  - discriminate.
  - reflexivity.
  - reflexivity.
  - discriminate.
  - discriminate.
Defined.

(** C5 at the sample data: an audit entry, then a blocked number, on a
    clock that runs forward. *)
Lemma defaulted_timestamps_follow_the_steady_clock :
  Sorted Z.le
    (map (fun mr : Model * row => stamp (snd mr))
         (fst (create_all
                 [(AuditLog, [("kind", VInt 1)]);
                  (BlockList, [("hotline", VInt 1); ("number", VStr "+15550003")])]
                 one_hotline))).
Proof.
  apply (defaulted_timestamps_follow_the_clock one_hotline).
  - apply Forall_cons; [split; [left|]; reflexivity|].
    apply Forall_cons; [split; [right|]; reflexivity|].
    apply Forall_nil.
  - intros i j Hij. cbn. unfold steady_clock. lia.
Defined.




(** C10 at the sample data: the hotline "conf" was created without a
    country. *)
Lemma country_defaults_to_US_conf :
  get "country"
    (cols {| rid := 1;
             cols := [("name", VStr "Conf"); ("slug", VStr "conf");
                      ("primary_number", VNone); ("primary_number_id", VNone);
                      ("country", VStr "US"); ("voice_greeting", VNone)] |})
  = VStr "US".
Proof.
  apply (country_defaults_to_US Hotline conf_hotline (started steady_clock)
           one_hotline).
  - left. reflexivity.
  - reflexivity.
  - reflexivity.
Defined.

(** * Further properties of the schema *)

(** ** Invariants of every run *)

(** A property of tables that holds of the empty table and is kept by every
    accepted INSERT holds of every table of every run. *)
Lemma reachable_table_invariant (P : Model -> table -> Prop) :
  (forall m, P m empty_table) ->
  (forall m dbs d r,
      In m models -> check_insert m dbs d = inr r ->
      P m (tables dbs (name m)) ->
      P m (table_insert m r (tables dbs (name m)))) ->
  forall w, reachable w ->
  forall c m, In m models -> P m (tables (stores w c) (name m)).
Proof.
  intros Hempty Hstep. induction 1 as [clk fk | w o _ IH | w m q _ IH Hm].
  - intros c m _. apply Hempty.
  - exact IH.
  - destruct (create_spec m q w) as (d & w1 & _ & _ & _ & Hs & _ & E).
    rewrite E. clear E.
    destruct (obj (db w)) as [c|]; cbn [snd];
      [|intros c' m' Hm'; rewrite Hs; now apply IH].
    destruct (check_insert m (stores w c) d) as [v | r] eqn:E; cbn [snd];
      [intros c' m' Hm'; rewrite Hs; now apply IH|].
    intros c' m' Hm'. cbn.
    destruct (Nat.eqb c' c) eqn:Ec; [|rewrite Hs; now apply IH].
    cbn. destruct (String.eqb (name m') (name m)) eqn:En; [|now apply IH].
    apply String.eqb_eq in En.
    rewrite (models_names_inj m' m Hm' Hm En).
    apply (Hstep m (stores w c) d r Hm E). now apply IH.
Qed.

Lemma unique_violation_none_inv (mn : string) (ixs : list ModelIndex)
  (rs : list row) (d : list (string * value)) :
  unique_violation mn ixs rs d = None ->
  forall ix, In ix ixs -> idx_unique ix = true ->
    forallb (fun v => negb (is_none v)) (key_of (idx_fields ix) d) = true ->
    existsb (matches (idx_fields ix) (key_of (idx_fields ix) d)) rs = false.
Proof.
  induction ixs as [|i ixs IH]; cbn; [contradiction|].
  intros H ix [-> | Hin] Hu Hk.
  - rewrite Hu, Hk in H. cbn in H.
    destruct (existsb _ rs); [discriminate | reflexivity].
  - apply IH; auto.
    destruct (idx_unique i && _ && _); [discriminate | exact H].
Qed.

Lemma check_insert_unique (m : Model) (dbs : database)
  (d : list (string * value)) (r : row) :
  check_insert m dbs d = inr r ->
  unique_violation (name m) (fields_to_index m)
    (rows (tables dbs (name m))) (cols r) = None.
Proof.
  unfold check_insert.
  destruct (not_null_violation _ _ _); [discriminate|].
  destruct (unique_violation _ _ _ _) eqn:E; [discriminate|].
  destruct (if foreign_keys dbs then _ else _); [discriminate|].
  intros H. injection H as <-. exact E.
Qed.

Lemma table_insert_keeps_keys_unique (m : Model) (dbs : database)
  (d : list (string * value)) (r : row) :
  check_insert m dbs d = inr r ->
  keys_unique m (tables dbs (name m)) ->
  keys_unique m (table_insert m r (tables dbs (name m))).
Proof.
  intros Hins Hold ix r1 r2 Hix Hu Hr1 Hr2 Hkey Hnn. cbn in Hr1, Hr2.
  pose proof (unique_violation_none_inv _ _ _ _
                (check_insert_unique m dbs d r Hins) ix Hix Hu) as Hfree.
  assert (forall r', In r' (rows (tables dbs (name m))) ->
            key_of (idx_fields ix) (cols r') = key_of (idx_fields ix) (cols r) ->
            forallb (fun v => negb (is_none v))
                    (key_of (idx_fields ix) (cols r)) = true ->
            False) as Hclash.
  { intros r' Hr' Hk Hn. specialize (Hfree Hn).
    assert (existsb (matches (idx_fields ix) (key_of (idx_fields ix) (cols r)))
                    (rows (tables dbs (name m))) = true) as Hex.
    { apply existsb_exists. exists r'. split; [exact Hr'|].
      unfold matches. rewrite Hk. apply key_eqb_refl. }
    rewrite Hex in Hfree. discriminate. }
  apply in_app_or in Hr1 as [Hr1 | [<- | []]];
    apply in_app_or in Hr2 as [Hr2 | [<- | []]].
  - now apply (Hold ix r1 r2).
  - exfalso. apply (Hclash r1 Hr1 Hkey). now rewrite <- Hkey.
  - exfalso. now apply (Hclash r2 Hr2 (eq_sym Hkey)).
  - reflexivity.
Qed.




(** X1. In every state of a run, no two stored hotlines have the same
    slug. *)
Theorem stored_slugs_are_distinct (w : World) (c : nat) (r1 r2 : row) :
  reachable w ->
  In r1 (rows (tables (stores w c) (name Hotline))) ->
  In r2 (rows (tables (stores w c) (name Hotline))) ->
  get "slug" (cols r1) = get "slug" (cols r2) ->
  r1 = r2.
Proof.
  intros Hreach Hr1 Hr2 Hslug.
  assert (In Hotline models) as Hm by (cbn; tauto).
  pose proof (reachable_table_invariant keys_unique) as Hinv.
  apply (Hinv) with (w := w) (c := c) (m := Hotline)
                    (ix := mkIndex ["slug"] true); auto.
  - intros m ix x y _ _ [].
  - intros m dbs d r _. apply table_insert_keeps_keys_unique.
  - cbn. tauto.
  - cbn. now rewrite Hslug.
  - cbn. rewrite andb_true_r.
    destruct (reachable_ok w Hreach c Hotline Hm) as (_ & _ & Hrows).
    rewrite Forall_forall in Hrows.
    rewrite is_none_false; [reflexivity|].
    apply (Hrows r1 Hr1 "slug" (field CharField [Unique_ true]));
      [cbn; tauto | reflexivity].
Qed.


(** X3. In every state of a run, every stored row of every model has a
    value in each of its [NOT NULL] columns. *)
Theorem stored_rows_have_their_required_columns (w : World) (c : nat)
  (m : Model) (r : row) (n : string) (f : Field) :
  reachable w ->
  In m models ->
  In r (rows (tables (stores w c) (name m))) ->
  In (n, f) (fields m) ->
  null f = false ->
  get n (cols r) <> VNone.
Proof.
  intros Hreach Hm Hr Hf Hnull.
  destruct (reachable_ok w Hreach c m Hm) as (_ & _ & Hrows).
  rewrite Forall_forall in Hrows. now apply (Hrows r Hr n f).
Qed.

(** X4. In every state of a run, in a database that enforces foreign keys,
    every foreign key that is set in a stored row is the primary key of a
    stored row of the model it points to. *)
Theorem stored_references_are_not_dangling (w : World) (c : nat) (m : Model)
  (r : row) (n : string) (f : Field) (rel : string) :
  reachable w ->
  foreign_keys (stores w c) = true ->
  In m models ->
  In r (rows (tables (stores w c) (name m))) ->
  In (n, f) (fields m) ->
  fclass f = ForeignKeyField rel ->
  get n (cols r) <> VNone ->
  exists r', In r' (rows (tables (stores w c) rel))
             /\ get n (cols r) = VInt (rid r').
Proof.
  intros Hreach Hfk Hm Hr Hf Hrel Hset.
  destruct (reachable_references w Hreach c m r n f rel Hm Hr Hf Hrel Hfk)
    as [Hnone | Href]; [contradiction|].
  unfold refers_to in Href. apply existsb_exists in Href as (r' & Hr' & Heq).
  apply value_eqb_eq in Heq. now exists r'.
Qed.

(** ** What a [create] changes *)

(** X5. A [create] that raises changes no table of any database and leaves
    the handle as it was, whatever the model, the keywords and the error. *)
Theorem failed_create_stores_nothing (m : Model) (q : list (string * value))
  (w w' : World) (e : exn) :
  create m q w = (Err e, w') ->
  stores w' = stores w /\ db w' = db w /\ clock w' = clock w.
Proof.
  destruct (create_spec m q w) as (d & w1 & _ & Hc & Hd & Hs & _ & E).
  rewrite E. destruct (obj (db w)) as [c|].
  - destruct (check_insert m (stores w c) d); intros H; inversion H.
    now subst.
  - intros H. inversion H. now subst.
Qed.


Lemma get_default_dict_defaults (fs : list (string * Field)) :
  forall w, exists d w',
    get_default_dict fs w = (Ok d, w')
    /\ forall n, (forall f, In (n, f) fs -> default f = None) -> get n d = VNone.
Proof.
  induction fs as [|[k g] fs IH]; intros w; cbn.
  - exists [], w. auto.
  - destruct (default g) as [[v | h]|] eqn:Eg.
    + destruct (IH w) as (d & w' & E & H). unfold bind. rewrite E.
      exists ((k, v) :: d), w'. split; [reflexivity|].
      intros n Hn. unfold get. cbn. destruct (String.eqb n k) eqn:Ek.
      * apply String.eqb_eq in Ek. subst.
        specialize (Hn g (or_introl eq_refl)). congruence.
      * apply H. intros f Hf. apply Hn. now right.
    + destruct h. unfold bind, call, utcnow.
      destruct (IH (mkWorld (clock w) (S (ticks w)) (db w) (stores w)))
        as (d & w' & E & H).
      rewrite E.
      exists ((k, VDatetime (clock w (ticks w))) :: d), w'.
      split; [reflexivity|].
      intros n Hn. unfold get. cbn. destruct (String.eqb n k) eqn:Ek.
      * apply String.eqb_eq in Ek. subst.
        specialize (Hn g (or_introl eq_refl)). congruence.
      * apply H. intros f Hf. apply Hn. now right.
    + destruct (IH w) as (d & w' & E & H). exists d, w'. split; [exact E|].
      intros n Hn. apply H. intros f Hf. apply Hn. now right.
Qed.




(** ** Reading back *)



(** ** When [create] fails and when it succeeds *)

Lemma models_columns_distinct (m : Model) :
  In m models -> NoDup (map fst (fields m)).
Proof.
  cbn. intros Hm.
  repeat (destruct Hm as [<- | Hm];
          [cbn; repeat constructor; cbn; intuition discriminate|]).
  contradiction.
Qed.

Lemma column_declared_once (fs : list (string * Field)) (n : string)
  (f f' : Field) :
  NoDup (map fst fs) -> In (n, f) fs -> In (n, f') fs -> f = f'.
Proof.
  induction fs as [|[k g] fs IH]; cbn; [contradiction|].
  intros Hnd Hf Hf'. inversion Hnd as [|? ? Hk Hnd']; subst.
  destruct Hf as [Hf | Hf], Hf' as [Hf' | Hf'].
  - congruence.
  - injection Hf as -> ->. exfalso. apply Hk.
    apply in_map_iff. now exists (n, f').
  - injection Hf' as -> ->. exfalso. apply Hk.
    apply in_map_iff. now exists (n, f).
  - now apply IH.
Qed.

(** The value a column has in the defaults of an instance. *)
Lemma get_default_dict_lookup (fs : list (string * Field)) :
  NoDup (map fst fs) ->
  forall w d w',
    get_default_dict fs w = (Ok d, w') ->
    forall n f, In (n, f) fs ->
      match default f with
      | None => get n d = VNone
      | Some (Const v) => get n d = v
      | Some (Call _) => exists t, get n d = VDatetime t
      end.
Proof.
  induction fs as [|[k g] fs IH]; intros Hnd w d w' E n f Hin;
    [contradiction|].
  inversion Hnd as [|? ? Hk Hnd']; subst.
  assert (forall f0, In (n, f0) fs -> String.eqb n k = false) as Hneq.
  { intros f0 Hf0. apply String.eqb_neq. intros ->. apply Hk.
    apply in_map_iff. now exists (k, f0). }
  cbn in E. destruct (default g) as [[v | h]|] eqn:Eg.
  - unfold bind in E.
    destruct (get_default_dict fs w) as [[e | d1] w1] eqn:E1;
      [discriminate|]. injection E as <- <-.
    destruct Hin as [Heq | Hin].
    + injection Heq as -> ->. rewrite Eg. unfold get. cbn.
      now rewrite String.eqb_refl.
    + specialize (IH Hnd' w d1 w1 E1 n f Hin).
      unfold get in *. cbn. now rewrite (Hneq f Hin).
  - destruct h. unfold bind, call, utcnow in E.
    destruct (get_default_dict fs _) as [[e | d1] w1] eqn:E1;
      [discriminate|]. injection E as <- <-.
    destruct Hin as [Heq | Hin].
    + injection Heq as -> ->. rewrite Eg. unfold get. cbn.
      rewrite String.eqb_refl. eauto.
    + specialize (IH Hnd' _ d1 w1 E1 n f Hin).
      unfold get in *. cbn. now rewrite (Hneq f Hin).
  - destruct Hin as [Heq | Hin].
    + injection Heq as -> ->. rewrite Eg.
      destruct (get_default_dict_defaults fs w) as (d2 & w2 & E2 & H2).
      rewrite E in E2. injection E2 as <- <-. apply H2.
      intros f0 Hf0. exfalso. apply Hk. apply in_map_iff. now exists (n, f0).
    + now apply (IH Hnd' w d w' E n f Hin).
Qed.

Lemma models_defaults_are_set (m : Model) (n : string) (f : Field) (v : value) :
  In m models -> In (n, f) (fields m) -> default f = Some (Const v) ->
  v <> VNone.
Proof.
  cbn. intros Hm Hf Hd.
  repeat (destruct Hm as [<- | Hm];
          [cbn in Hf;
           repeat (destruct Hf as [Hf | Hf];
                   [injection Hf as <- <-; cbn in Hd;
                    first [discriminate Hd
                          | injection Hd as <-; discriminate]|]);
           contradiction|]).
  contradiction.
Qed.


(** The columns of the row an INSERT would store, from the keywords. *)
Lemma create_data (m : Model) (q : list (string * value)) (w : World) :
  In m models ->
  exists d w1,
    Model_init m q w = (Ok d, w1)
    /\ forall n f, In (n, f) (fields m) ->
         get n (map (fun nf : string * Field => (fst nf, get (fst nf) d))
                    (fields m))
         = match kw_value m n q with
           | Some v => v
           | None => get n d
           end
           /\ (kw_value m n q = None ->
               match default f with
               | None => get n d = VNone
               | Some _ => get n d <> VNone
               end).
Proof.
  intros Hm. unfold Model_init, bind.
  destruct (get_default_dict_defaults (fields m) w) as (d0 & w1 & E & _).
  rewrite E. exists (fold_left (setattr m) q d0), w1. split; [reflexivity|].
  intros n f Hf.
  assert (In n (map fst (fields m))) as Hn.
  { apply in_map_iff. now exists (n, f). }
  rewrite get_row_values by exact Hn. rewrite !get_after_setattr.
  split; [destruct (kw_value m n q); reflexivity|].
  intros ->.
  pose proof (get_default_dict_lookup (fields m) (models_columns_distinct m Hm)
                w d0 w1 E n f Hf) as Hd.
  destruct (default f) as [[v | g]|] eqn:Ef.
  - rewrite Hd. now apply (models_defaults_are_set m n f v).
  - destruct Hd as [t ->]. discriminate.
  - exact Hd.
Qed.

(** X10. On a bound handle, a [create] on any model fails with the NOT NULL
    violation, and stores nothing, as soon as one [NOT NULL] column is given
    as [None], or is left out and has no default: so for each required
    column, and also for a defaulted one set to [None]. *)
Theorem create_without_a_required_column_fails (m : Model)
  (q : list (string * value)) (w : World) (c : nat) (n : string) (f : Field) :
  In m models ->
  obj (db w) = Some c ->
  In (n, f) (fields m) ->
  null f = false ->
  kw_value m n q = Some VNone
  \/ (kw_value m n q = None /\ default f = None) ->
  exists col w',
    create m q w = (Err (IntegrityError (NotNull (name m) col)), w')
    /\ stores w' = stores w.
Proof.
  intros Hm Hc Hf Hnull Hq.
  destruct (create_spec m q w) as (d & w1 & Hinit & _ & _ & Hs & _ & E).
  destruct (create_data m q w Hm) as (d' & w1' & Hinit' & Hdata).
  rewrite Hinit' in Hinit. injection Hinit as -> ->.
  rewrite E, Hc. clear E. unfold check_insert.
  destruct (not_null_violation_some (name m) (fields m)
              (map (fun nf : string * Field => (fst nf, get (fst nf) d))
                   (fields m)) n f Hf Hnull) as [col Hcol].
  - destruct (Hdata n f Hf) as [-> Hdef].
    destruct Hq as [-> | [Hq Hd]]; [reflexivity|].
    rewrite Hq. specialize (Hdef Hq). now rewrite Hd in Hdef.
  - rewrite Hcol. now exists col, w1.
Qed.







(** ** Back-references *)




(** ** The clock *)

(** X14. A [create] on AuditLog or BlockList reads the wall clock exactly
    once, whether or not a timestamp is given and whether or not the row is
    stored; a [create] on the four other models never reads it. *)
Theorem create_reads_the_clock_for_timestamped_models_only (m : Model)
  (q : list (string * value)) (w : World) :
  In m models ->
  clock (snd (create m q w)) = clock w
  /\ (m = AuditLog \/ m = BlockList ->
      ticks (snd (create m q w)) = S (ticks w))
  /\ (m = Number \/ m = Hotline \/ m = HotlineMember \/ m = HotlineAdmin ->
      ticks (snd (create m q w)) = ticks w).
Proof.
  intros Hm.
  destruct (create_spec m q w) as (d & w1 & Hinit & Hclk & _ & _ & _ & E).
  assert (clock (snd (create m q w)) = clock w
          /\ ticks (snd (create m q w)) = ticks w1) as [Hc Ht].
  { rewrite E. destruct (obj (db w)) as [c|]; [|auto].
    destruct (check_insert m (stores w c) d); auto. }
  split; [exact Hc|]. rewrite Ht. split.
  - intros [-> | ->].
    + rewrite AuditLog_init in Hinit. now injection Hinit as _ <-.
    + rewrite BlockList_init in Hinit. now injection Hinit as _ <-.
  - intros [-> | [-> | [-> | ->]]].
    + rewrite Number_init in Hinit. now injection Hinit as _ <-.
    + rewrite Hotline_init in Hinit. now injection Hinit as _ <-.
    + rewrite HotlineMember_init in Hinit. now injection Hinit as _ <-.
    + rewrite HotlineAdmin_init in Hinit. now injection Hinit as _ <-.
Qed.

(** ** More on the serializable field *)

Lemma options_follow_the_keywords (kws : list kwarg) :
  forall f g : Field,
    null f = null g -> index f = index g -> unique f = unique g ->
    default f = default g -> backref f = backref g ->
    null (fold_left apply_kwarg kws f) = null (fold_left apply_kwarg kws g)
    /\ index (fold_left apply_kwarg kws f) = index (fold_left apply_kwarg kws g)
    /\ unique (fold_left apply_kwarg kws f) = unique (fold_left apply_kwarg kws g)
    /\ default (fold_left apply_kwarg kws f) = default (fold_left apply_kwarg kws g)
    /\ backref (fold_left apply_kwarg kws f) = backref (fold_left apply_kwarg kws g)
    /\ fclass (fold_left apply_kwarg kws f) = fclass f.
Proof.
  induction kws as [|k kws IH]; intros f g Hn Hi Hu Hd Hb; cbn;
    [repeat split; assumption|].
  destruct (IH (apply_kwarg f k) (apply_kwarg g k)) as (H1 & H2 & H3 & H4 & H5 & H6);
    try (destruct k; cbn; congruence).
  repeat split; auto. rewrite H6. destruct k; reflexivity.
Qed.

(** X15. [SerializableField.__init__] keeps the class and hands every other
    argument to [TextField]: a serializable column has, for any keyword
    arguments, the options of the text column declared with the same
    arguments. *)
Theorem SerializableField_takes_the_options_of_a_text_column (C : string)
  (kws : list kwarg) :
  fclass (field (SerializableField C) kws) = SerializableField C
  /\ null (field (SerializableField C) kws) = null (field TextField kws)
  /\ index (field (SerializableField C) kws) = index (field TextField kws)
  /\ unique (field (SerializableField C) kws) = unique (field TextField kws)
  /\ default (field (SerializableField C) kws) = default (field TextField kws)
  /\ backref (field (SerializableField C) kws) = backref (field TextField kws).
Proof.
  unfold field.
  destruct (options_follow_the_keywords kws
              (class_defaults (SerializableField C)) (class_defaults TextField))
    as (H1 & H2 & H3 & H4 & H5 & H6); try reflexivity.
  repeat split; auto.
Qed.

(** X16. Loading a stored text through a [SerializableField] and writing
    the loaded instance back stores the same text, when [deserialize] makes
    of it an instance whose [serialize] gives the text again.  The write
    goes by the instance's own class, not by the class of the field. *)
Theorem SerializableField_load_then_store (T : Type)
  (classes : string -> PyClass T) (class_of : T -> string)
  (text_type : pyval T -> string)
  (builtin_adapt : field_class -> pyval T -> result (pyval T))
  (C : string) (s : string) (o : T) :
  deserialize (classes C) (Prim (VStr s)) = Ok (Obj o) ->
  serialize (classes (class_of o)) o = Ok (Prim (VStr s)) ->
  rbind (python_value T classes text_type builtin_adapt
           (SerializableField C) (Prim (VStr s)))
        (db_value T classes class_of text_type builtin_adapt
           (SerializableField C))
  = Ok (Prim (VStr s)).
Proof.
  intros Hde Hser. cbn. unfold SerializableField_python_value.
  rewrite Hde. cbn. unfold SerializableField_db_value, call_serialize.
  exact Hser.
Qed.

(** ** The further properties at the sample data *)

Lemma strict_member_reachable : reachable strict_member.
Proof.
  unfold strict_member, strict_started.
  do 2 (apply reach_create; [|cbn; tauto]).
  apply reach_initialize, reach_boot.
Qed.

(** X1 at the sample data. *)
Lemma stored_slugs_are_distinct_conf : conf_row = conf_row.
Proof.
  apply (stored_slugs_are_distinct one_hotline 1%nat conf_row conf_row).
  - apply one_hotline_reachable.
  - left. reflexivity.
  - left. reflexivity.
  - reflexivity.
Defined.


(** X3 at the sample data: the member Ada has [verified] set. *)
Lemma stored_rows_have_their_required_columns_ada :
  get "verified" (cols ada_row) <> VNone.
Proof.
  apply (stored_rows_have_their_required_columns with_members 1%nat
           HotlineMember ada_row "verified" (field BooleanField [])).
  - apply with_members_reachable.
  - cbn. tauto.
  - left. reflexivity.
  - cbn. tauto.
  - reflexivity.
Defined.

(** X4 at the sample data: Ada's hotline is stored. *)
Lemma stored_references_are_not_dangling_ada :
  exists r', In r' (rows (tables (stores strict_member 1%nat) "Hotline"))
             /\ get "hotline" (cols ada_row) = VInt (rid r').
Proof.
  apply (stored_references_are_not_dangling strict_member 1%nat HotlineMember
           ada_row "hotline"
           (field (ForeignKeyField "Hotline") [Backref "members"]) "Hotline").
  - apply strict_member_reachable.
  - reflexivity.
  - cbn. tauto.
  - left. reflexivity.
  - cbn. tauto.
  - reflexivity.
  - discriminate.
Defined.

(** X5 at the sample data: a hotline without name. *)
Lemma failed_create_stores_nothing_conf :
  stores (started steady_clock) = stores (started steady_clock)
  /\ db (started steady_clock) = db (started steady_clock)
  /\ clock (started steady_clock) = clock (started steady_clock).
Proof.
  apply (failed_create_stores_nothing Hotline [("slug", VStr "conf")]
           (started steady_clock) (started steady_clock)
           (IntegrityError (NotNull "Hotline" "name"))).
  reflexivity.
Defined.





(** X10 at the sample data: a number without [features]. *)
Lemma create_without_a_required_column_fails_number :
  exists col w',
    create Number [("number", VStr "+15550100")] (started steady_clock)
    = (Err (IntegrityError (NotNull (name Number) col)), w')
    /\ stores w' = stores (started steady_clock).
Proof.
  apply (create_without_a_required_column_fails Number
           [("number", VStr "+15550100")] (started steady_clock) 1%nat
           "features" (field TextField [Index false])).
  - cbn. tauto.
  - reflexivity.
  - cbn. tauto.
  - reflexivity.
  - right. split; reflexivity.
Defined.




(** X14 at the sample data: an audit entry that is refused. *)
Lemma create_reads_the_clock_for_timestamped_models_only_audit :
  ticks (snd (create AuditLog [] (started steady_clock)))
  = S (ticks (started steady_clock)).
Proof.
  assert (In AuditLog models) as Hm by (cbn; tauto).
  destruct (create_reads_the_clock_for_timestamped_models_only AuditLog []
              (started steady_clock) Hm) as (_ & Hticks & _).
  apply Hticks. left. reflexivity.
Defined.

(** X16 at the sample class. *)
Lemma SerializableField_load_then_store_Toggle :
  rbind (python_value bool toggle_classes toggle_str toggle_adapt
           (SerializableField "Toggle") (Prim (VStr "on")))
        (db_value bool toggle_classes toggle_class_of toggle_str toggle_adapt
           (SerializableField "Toggle"))
  = Ok (Prim (VStr "on")).
Proof.
  apply (SerializableField_load_then_store bool toggle_classes toggle_class_of
           toggle_str toggle_adapt "Toggle" "on" true); reflexivity.
Defined.
